(** * LandingPage: search state and URL synchronisation

    A shallow embedding of the state-bearing logic of
    [src/components/LandingPage.tsx]: the construction of the query-string in
    [handleSearch], the life cycle of one (or several overlapping) calls of
    [handleSearch], the [useEffect] that starts a search from the URL, and the
    three display conditions of the returned markup.

    Strings are modelled by [string], read as the UTF-8 bytes of the
    JavaScript string; this is the form in which [URLSearchParams] serialises
    them. A JavaScript string with a lone surrogate has no such bytes: the
    [URLSearchParams] constructor first replaces each lone surrogate by
    U+FFFD, and it is the string after this replacement that the bytes
    stand for. Nothing below says of two JavaScript strings that they are
    different. *)

From Stdlib Require Import ZArith Ascii.
From stdpp Require Import base list strings.

Open Scope Z_scope.

(** ** JavaScript values used by the component *)

(** A value of type [string | null | undefined], as in the optional fields of
    [SearchParams] and in the result of [searchParams.get]. *)
Inductive OptStr : Type :=
  | Undefined
  | Null
  | Str (s : string).

(** JavaScript truthiness: [undefined], [null] and the empty string are falsy,
    every other string is truthy. *)
Definition truthy (v : OptStr) : bool :=
  match v with
  | Str s => negb (bool_decide (s = ""))
  | Undefined | Null => false
  end.

(** [a || b]: the left operand when it is truthy, the right one otherwise. *)
Definition js_or (a b : OptStr) : OptStr := if truthy a then a else b.

(** [a || ''] at type [string]. *)
Definition or_empty (a : OptStr) : string :=
  match a with
  | Str s => s
  | Undefined | Null => ""
  end.

(** [a || undefined]. *)
Definition or_undefined (a : OptStr) : OptStr := js_or a Undefined.

(** ** [URLSearchParams] *)

Module URLSearchParams.

(** The list of name-value pairs of the object, in order; the same name may
    occur more than once. *)
Definition t : Type := list (string * string).

(** [get(name)]: the value of the first pair with that name, [null] when
    there is none. *)
Fixpoint get (name : string) (l : t) : OptStr :=
  match l with
  | [] => Null
  | (k, v) :: l' => if bool_decide (k = name) then Str v else get name l'
  end.

(** [has(name)]. *)
Definition has (name : string) (l : t) : bool :=
  existsb (fun kv => bool_decide (kv.1 = name)) l.

(** Bytes that the application/x-www-form-urlencoded serialiser leaves as
    they are: ASCII letters and digits, and the four bytes [*-._]. *)
Definition unreserved (c : ascii) : bool :=
  let n := Z.of_nat (nat_of_ascii c) in
  ((48 <=? n) && (n <=? 57)) || ((65 <=? n) && (n <=? 90))
  || ((97 <=? n) && (n <=? 122))
  || (n =? 42) || (n =? 45) || (n =? 46) || (n =? 95).

Definition hex_digit (n : Z) : ascii :=
  ascii_of_nat (Z.to_nat (if n <? 10 then 48 + n else 55 + n)).

(** One byte: kept, turned into [+] (the space), or written [%XX]. *)
Definition encode_byte (c : ascii) : string :=
  let n := Z.of_nat (nat_of_ascii c) in
  if unreserved c then String c ""
  else if n =? 32 then "+"
  else String "%" (String (hex_digit (n / 16)) (String (hex_digit (n mod 16)) "")).

Fixpoint encode (s : string) : string :=
  match s with
  | EmptyString => ""
  | String c s' => encode_byte c +:+ encode s'
  end.

Definition encode_pair (kv : string * string) : string :=
  encode kv.1 +:+ "=" +:+ encode kv.2.

(** Segments joined with [&]. *)
Fixpoint join_amp (segs : list string) : string :=
  match segs with
  | [] => ""
  | [s] => s
  | s :: rest => s +:+ "&" +:+ join_amp rest
  end.

(** [toString()]. *)
Definition toString (l : t) : string := join_amp (map encode_pair l).

(** The [&]-separated segments of a query-string, used to say what a
    query-string contains. *)
Fixpoint split_amp (s : string) : list string :=
  match s with
  | EmptyString => [""]
  | String c s' =>
      if bool_decide (c = "&"%char) then "" :: split_amp s'
      else match split_amp s' with
           | seg :: segs => String c seg :: segs
           | [] => [String c ""]
           end
  end.

Definition segments (s : string) : list string :=
  match s with
  | EmptyString => []
  | _ => split_amp s
  end.

(** No [&] among the bytes of a string. *)
Fixpoint amp_free (s : string) : Prop :=
  match s with
  | EmptyString => True
  | String c s' => c ≠ "&"%char ∧ amp_free s'
  end.

End URLSearchParams.

(** ** The argument of [handleSearch] *)

(** [interface SearchParams]. *)
Record SearchParams : Type := mkSearchParams {
  query : string;
  domain : OptStr;
  tag : OptStr;
  year : OptStr;
  region : OptStr
}.

(** [...(v && { k: v })] inside an object literal: one property when [v] is
    truthy, none otherwise. *)
Definition spread_field (k : string) (v : OptStr) : URLSearchParams.t :=
  match v with
  | Str s => if truthy v then [(k, s)] else []
  | Undefined | Null => []
  end.

(** [new URLSearchParams({ term: query, ...(domain && { domain }), ... })].
    The constructor stores each value after replacing lone surrogates by
    U+FFFD; the strings here are the stored ones. *)
Definition build_params (p : SearchParams) : URLSearchParams.t :=
  ("term", query p) ::
  spread_field "domain" (domain p) ++
  spread_field "tag" (tag p) ++
  spread_field "year" (year p) ++
  spread_field "region" (region p).

(** [params.toString()]. *)
Definition query_string (p : SearchParams) : string :=
  URLSearchParams.toString (build_params p).

(** The optional fields of [SearchParams] with the names they are sent under. *)
Definition filter_fields (p : SearchParams) : list (string * OptStr) :=
  [("domain", domain p); ("tag", tag p); ("year", year p); ("region", region p)].

(** ** Component state *)

Section Component.

(** [SearchResult] is declared in [@/components/search/SearchResult]; the
    component never looks inside a result. *)
Context {SearchResult : Type}.

(** The four [useState] cells. *)
Record SearchState : Type := mkSearchState {
  isSearching : bool;
  error : OptStr;
  results : list SearchResult;
  hasSearched : bool
}.

(** The initial values given to [useState]. *)
Definition initial_state : SearchState :=
  {| isSearching := false; error := Null; results := []; hasSearched := false |}.

Definition setIsSearching (b : bool) (st : SearchState) : SearchState :=
  {| isSearching := b; error := error st; results := results st;
     hasSearched := hasSearched st |}.

Definition setError (e : OptStr) (st : SearchState) : SearchState :=
  {| isSearching := isSearching st; error := e; results := results st;
     hasSearched := hasSearched st |}.

Definition setResults (r : list SearchResult) (st : SearchState) : SearchState :=
  {| isSearching := isSearching st; error := error st; results := r;
     hasSearched := hasSearched st |}.

Definition setHasSearched (b : bool) (st : SearchState) : SearchState :=
  {| isSearching := isSearching st; error := error st; results := results st;
     hasSearched := b |}.

(** ** The router and the browser's session history *)

(** The session history as the back button sees it: the entries behind the
    current one (nearest first), the current URL, the entries ahead of it,
    and the vertical scroll position of the viewport. *)
Record Browser : Type := mkBrowser {
  back : list string;
  current : string;
  forward : list string;
  scrollY : Z
}.

(** The options object of a navigation; [scroll] defaults to [true]. *)
Record NavigateOptions : Type := { scroll : bool }.

(** [router.push(href, options)] of [next/navigation]: navigates to [href].
    When [href] differs from the current location the navigation is committed
    with [pushState]: a new entry is added and the entries ahead are dropped.
    When the page is already at [href] it is committed with [replaceState]
    and no entry is added. Unless [scroll] is [false] the viewport scrolls to
    the top. URLs are written as the router compares them, path and query
    after the origin; the navigation is taken as committed at the call. *)
Definition router_push (href : string) (o : NavigateOptions) (b : Browser) : Browser :=
  if bool_decide (href = current b) then
    {| back := back b;
       current := href;
       forward := forward b;
       scrollY := if scroll o then 0 else scrollY b |}
  else
    {| back := current b :: back b;
       current := href;
       forward := [];
       scrollY := if scroll o then 0 else scrollY b |}.

(** [router.replace(href, options)]: navigates without adding an entry. The
    component does not call it; it is here for comparison with [push]. *)
Definition router_replace (href : string) (o : NavigateOptions) (b : Browser) : Browser :=
  {| back := back b;
     current := href;
     forward := forward b;
     scrollY := if scroll o then 0 else scrollY b |}.

(** Number of entries of the session history. *)
Definition history_length (b : Browser) : nat :=
  (length (back b) + 1 + length (forward b))%nat.

(** ** The search endpoint as seen by [fetch] *)

(** A response: its status code and what [response.json()] resolves to,
    [None] when that promise rejects (the body is not JSON). *)
Record Response : Type := mkResponse {
  status : Z;
  body : option (list SearchResult)
}.

(** [response.ok]: the status is in the range 200-299. *)
Definition ok (r : Response) : bool := (200 <=? status r) && (status r <=? 299).

(** How the promise returned by [fetch] settles. *)
Inductive FetchOutcome : Type :=
  | NetworkError
  | Responded (r : Response).

(** ** Calls of [handleSearch] *)

(** Where a call of the async function [handleSearch] stands: suspended at
    [await fetch(...)], suspended at [await response.json()], or returned. *)
Inductive Pc : Type :=
  | AwaitFetch
  | AwaitJson (r : Response)
  | Settled.

Definition is_settled (pc : Pc) : bool :=
  match pc with
  | Settled => true
  | AwaitFetch | AwaitJson _ => false
  end.

(** The component instance with its surroundings: the state cells, the
    browser, the URLs requested with [fetch] so far, and every call of
    [handleSearch] made so far, in the order of the calls. *)
Record World : Type := mkWorld {
  ui : SearchState;
  browser : Browser;
  requests : list string;
  calls : list Pc
}.

Definition with_ui (f : SearchState -> SearchState) (w : World) : World :=
  {| ui := f (ui w); browser := browser w; requests := requests w; calls := calls w |}.

Definition with_call (i : nat) (pc : Pc) (w : World) : World :=
  {| ui := ui w; browser := browser w; requests := requests w;
     calls := <[i := pc]> (calls w) |}.

Definition failure_message : string := "Search failed. Please try again.".

(** [handleSearch] from its first line to [await fetch(...)]. On strings the
    [URLSearchParams] constructor, [toString] and [router.push] do not throw,
    so the call always reaches the [fetch]. *)
Definition handleSearch_begin (p : SearchParams) (w : World) : World :=
  let st := setHasSearched true
              (setResults [] (setIsSearching true (setError Null (ui w)))) in
  let params := build_params p in
  let b := router_push ("/?" +:+ URLSearchParams.toString params)
             {| scroll := false |} (browser w) in
  {| ui := st;
     browser := b;
     requests := requests w ++ ["/api/search?" +:+ URLSearchParams.toString params];
     calls := calls w ++ [AwaitFetch] |}.

(** The [catch] block followed by the [finally] block. *)
Definition catch_finally (st : SearchState) : SearchState :=
  setIsSearching false (setError (Str failure_message) st).

(** [handleSearch] resumed after [await fetch(...)]: a rejected promise and
    a response that is not [ok] both reach the [catch] block; otherwise the
    call suspends again at [await response.json()]. *)
Definition handleSearch_fetched (i : nat) (o : FetchOutcome) (w : World) : World :=
  match o with
  | NetworkError => with_call i Settled (with_ui catch_finally w)
  | Responded r =>
      if ok r then with_call i (AwaitJson r) w
      else with_call i Settled (with_ui catch_finally w)
  end.

(** [handleSearch] resumed after [await response.json()]. *)
Definition handleSearch_parsed (i : nat) (r : Response) (w : World) : World :=
  match body r with
  | Some data =>
      with_call i Settled (with_ui (fun st => setIsSearching false (setResults data st)) w)
  | None => with_call i Settled (with_ui catch_finally w)
  end.

(** ** Reading the URL *)

Definition recognized : list string := ["term"; "domain"; "tag"; "year"; "region"].

(** [hasSearchParams()], given what [useSearchParams()] returned. *)
Definition hasSearchParams (sp : URLSearchParams.t) : bool :=
  truthy
    (js_or (URLSearchParams.get "term" sp)
    (js_or (URLSearchParams.get "domain" sp)
    (js_or (URLSearchParams.get "tag" sp)
    (js_or (URLSearchParams.get "year" sp)
           (URLSearchParams.get "region" sp))))).

(** [performInitialSearch()]: the argument it calls [handleSearch] with, or
    [None] when it does not call it. *)
Definition performInitialSearch (sp : URLSearchParams.t) : option SearchParams :=
  let query := URLSearchParams.get "term" sp in
  let domain := URLSearchParams.get "domain" sp in
  let tag := URLSearchParams.get "tag" sp in
  let year := URLSearchParams.get "year" sp in
  let region := URLSearchParams.get "region" sp in
  if truthy (js_or query (js_or domain (js_or tag (js_or year region)))) then
    Some {| query := or_empty (js_or query (Str ""));
            domain := or_undefined domain;
            tag := or_undefined tag;
            year := or_undefined year;
            region := or_undefined region |}
  else None.

(** The body of the [useEffect] that depends on [searchParams]. *)
Definition effect_search (sp : URLSearchParams.t) : option SearchParams :=
  if hasSearchParams sp then performInitialSearch sp else None.

(** ** Events *)

(** What can happen to a mounted component: the effect runs (on mount and
    when [searchParams] changes), the form calls [onSearch], the [fetch]
    of a call settles, the [response.json()] of a call settles, and the
    session history changes for a reason other than [handleSearch] (the back
    or forward button, a link, a scroll of the page). *)
Inductive Event : Type :=
  | ParamsChanged (sp : URLSearchParams.t)
  | OnSearch (p : SearchParams)
  | FetchSettled (i : nat) (o : FetchOutcome)
  | JsonSettled (i : nat)
  | Navigated (b : Browser).

(** One event; [None] when the event cannot happen in this world (the call
    is not suspended at that point). [ParamsChanged sp] is the run of the
    effect alone, with the parameters [sp] that [useSearchParams()] gave to
    the render; the change of the location that comes before it is the push
    of a call or a [Navigated] event. The runs in which [sp] is not what the
    location holds are runs of the model too, so what holds of every run
    holds of those of the page. *)
Definition step (w : World) (e : Event) : option World :=
  match e with
  | ParamsChanged sp =>
      match effect_search sp with
      | Some p => Some (handleSearch_begin p w)
      | None => Some w
      end
  | OnSearch p => Some (handleSearch_begin p w)
  | FetchSettled i o =>
      match calls w !! i with
      | Some AwaitFetch => Some (handleSearch_fetched i o w)
      | _ => None
      end
  | JsonSettled i =>
      match calls w !! i with
      | Some (AwaitJson r) => Some (handleSearch_parsed i r w)
      | _ => None
      end
  | Navigated b =>
      Some {| ui := ui w; browser := b; requests := requests w; calls := calls w |}
  end.

(** The event is the return of a call through the [catch] block: its [fetch]
    rejected, its response is not [ok], or its body does not parse. *)
Definition returns_by_catch (w : World) (e : Event) : bool :=
  match e with
  | FetchSettled i o =>
      match calls w !! i, o with
      | Some AwaitFetch, NetworkError => true
      | Some AwaitFetch, Responded r => negb (ok r)
      | _, _ => false
      end
  | JsonSettled i =>
      match calls w !! i with
      | Some (AwaitJson r) => bool_decide (body r = None)
      | _ => false
      end
  | ParamsChanged _ | OnSearch _ | Navigated _ => false
  end.

Fixpoint run (w : World) (es : list Event) : option World :=
  match es with
  | [] => Some w
  | e :: es' =>
      match step w e with
      | Some w' => run w' es'
      | None => None
      end
  end.

(** A freshly loaded page at the given URL. *)
Definition initial_world (url : string) : World :=
  {| ui := initial_state;
     browser := {| back := []; current := url; forward := []; scrollY := 0 |};
     requests := [];
     calls := [] |}.

(** The events of one call of [handleSearch] that is the [i]-th call of the
    page and runs with nothing else in between. *)
Definition lone_call (i : nat) (p : SearchParams) (o : FetchOutcome) : list Event :=
  OnSearch p :: FetchSettled i o ::
  match o with
  | Responded r => if ok r then [JsonSettled i] else []
  | NetworkError => []
  end.

(** The call ends in the [catch] block. *)
Definition fails (o : FetchOutcome) : bool :=
  match o with
  | NetworkError => true
  | Responded r => negb (ok r) || bool_decide (body r = None)
  end.

(** The state cells after a call that ended in the [catch] block. *)
Definition failed_state : SearchState :=
  {| isSearching := false; error := Str failure_message; results := [];
     hasSearched := true |}.

(** The state cells after a call that stored [data]. *)
Definition succeeded_state (data : list SearchResult)  :=
  {| isSearching := false; error := Null; results := data; hasSearched := true |}.

(** What a call leaves in the state cells when nothing else touches them. *)
Definition lone_call_state (o : FetchOutcome) : SearchState :=
  match o with
  | NetworkError => failed_state
  | Responded r =>
      if ok r then
        match body r with
        | Some data => succeeded_state data
        | None => failed_state
        end
      else failed_state
  end.

(** While [isSearching] is [true] some call has not returned yet. *)
Definition searching_has_pending (w : World) : Prop :=
  isSearching (ui w) = true →
  ∃ i pc, calls w !! i = Some pc ∧ is_settled pc = false.

(** ** Display conditions *)

(** [const showCenteredSearch = !hasSearched && !hasSearchParams()]. *)
Definition showCenteredSearch (st : SearchState) (sp : URLSearchParams.t) : bool :=
  negb (hasSearched st) && negb (hasSearchParams sp).

(** The condition on [<SearchResults .../>]. *)
Definition showSearchResults (st : SearchState) (sp : URLSearchParams.t) : bool :=
  hasSearchParams sp.

(** The condition on the fragment with [<IntroSection />] and [<PostList .../>]. *)
Definition showIntroAndPosts (st : SearchState) (sp : URLSearchParams.t) : bool :=
  showCenteredSearch st sp
  || (bool_decide (length (results st) = 0%nat) && negb (isSearching st)).

End Component.

(** ** Reading a query-string back *)

(** The parser of [URLSearchParams] (application/x-www-form-urlencoded), by
    which [useSearchParams()] reads the query of the location. After
    percent-decoding the real parser reads the bytes as UTF-8 and puts U+FFFD
    for what is not; the bytes are kept as they are here, which is the same
    on everything [toString()] writes, and the parser is used on nothing
    else below. *)

(** The value of a hexadecimal digit. *)
Definition hex_value (c : ascii) : option Z :=
  let n := Z.of_nat (nat_of_ascii c) in
  if (48 <=? n) && (n <=? 57) then Some (n - 48)
  else if (65 <=? n) && (n <=? 70) then Some (n - 55)
  else if (97 <=? n) && (n <=? 102) then Some (n - 87)
  else None.

(** Percent-decoding: [%XX] with two hexadecimal digits becomes one byte,
    every other byte stays (also a [%] that is not followed by two digits). *)
Fixpoint percent_decode (s : string) : string :=
  match s with
  | EmptyString => ""
  | String c s' =>
      if bool_decide (c = "%"%char) then
        match s' with
        | String a (String b rest) =>
            match hex_value a, hex_value b with
            | Some x, Some y =>
                String (ascii_of_nat (Z.to_nat (16 * x + y))) (percent_decode rest)
            | _, _ => String c (percent_decode s')
            end
        | _ => String c (percent_decode s')
        end
      else String c (percent_decode s')
  end.

(** Every [+] replaced by a space. *)
Fixpoint plus_to_space (s : string) : string :=
  match s with
  | EmptyString => ""
  | String c s' =>
      String (if bool_decide (c = "+"%char) then " "%char else c) (plus_to_space s')
  end.

(** A segment cut at its first [=]; the value is empty when there is none. *)
Fixpoint split_eq (s : string) : string * string :=
  match s with
  | EmptyString => ("", "")
  | String c s' =>
      if bool_decide (c = "="%char) then ("", s')
      else let '(name, value) := split_eq s' in (String c name, value)
  end.

Definition parse_segment (seg : string) : URLSearchParams.t :=
  match seg with
  | EmptyString => []
  | _ =>
      let '(name, value) := split_eq seg in
      [(percent_decode (plus_to_space name), percent_decode (plus_to_space value))]
  end.

(** [new URLSearchParams(queryString)] for a query-string without the leading
    [?]: empty segments are skipped. *)
Definition parse_query (s : string) : URLSearchParams.t :=
  flat_map parse_segment (URLSearchParams.split_amp s).

(** Bytes that [toString()] can produce: the unreserved ones and [+%=&]. *)
Definition url_safe (c : ascii) : bool :=
  URLSearchParams.unreserved c
  || bool_decide (c = "+"%char) || bool_decide (c = "%"%char)
  || bool_decide (c = "="%char) || bool_decide (c = "&"%char).

Fixpoint all_bytes (P : ascii → bool) (s : string) : bool :=
  match s with
  | EmptyString => true
  | String c s' => P c && all_bytes P s'
  end.

(** ** The rest of the component *)

(** The [initialValues] given to [<SearchForm>]: every field is a string,
    [''] when [get] gives nothing. *)
Definition initialValues (sp : URLSearchParams.t) : SearchParams :=
  {| query := or_empty (js_or (URLSearchParams.get "term" sp) (Str ""));
     domain := js_or (URLSearchParams.get "domain" sp) (Str "");
     tag := js_or (URLSearchParams.get "tag" sp) (Str "");
     year := js_or (URLSearchParams.get "year" sp) (Str "");
     region := js_or (URLSearchParams.get "region" sp) (Str "") |}.

(** [interface Project]. The sizes are record counts: integers, in the range
    where JavaScript adds them exactly. *)
Record Project : Type := mkProject {
  title : string;
  href : string;
  size : option Z;
  is_restricted : bool
}.

(** [project.size || 0]: a missing size and the size [0] give [0]. *)
Definition size_or_zero (project : Project) : Z :=
  match size project with
  | Some n => if n =? 0 then 0 else n
  | None => 0
  end.

(** [projectsData.length]. *)
Definition totalCollections (projectsData : list Project) : nat := length projectsData.

(** [projectsData.reduce((sum, project) => sum + (project.size || 0), 0)],
    with the sum taken in the integers: what the code computes as long as no
    addition has to round. *)
Definition totalSize (projectsData : list Project) : Z :=
  fold_left (λ sum project, sum + size_or_zero project) projectsData 0.

(** An integer rounded to the nearest number of the binary64 format, ties to
    the even significand: integers up to [2^53] in magnitude are kept, larger
    ones are rounded to a multiple of [2^e] that leaves 53 significant
    bits (up to the largest finite number). *)
Definition round64 (x : Z) : Z :=
  if Z.abs x <=? 2 ^ 53 then x
  else
    let e := Z.log2 (Z.abs x) - 52 in
    let q := x / 2 ^ e in
    let r := x mod 2 ^ e in
    let half := 2 ^ (e - 1) in
    if r <? half then q * 2 ^ e
    else if half <? r then (q + 1) * 2 ^ e
    else if Z.even q then q * 2 ^ e
    else (q + 1) * 2 ^ e.

(** The same [reduce] with the addition of JavaScript numbers: every sum is
    rounded to binary64. *)
Definition totalSize64 (projectsData : list Project) : Z :=
  fold_left (λ sum project, round64 (sum + size_or_zero project)) projectsData 0.

(** An event that calls [handleSearch]. *)
Definition starts_search {SearchResult : Type} (e : @Event SearchResult) : bool :=
  match e with
  | OnSearch _ => true
  | ParamsChanged sp => hasSearchParams sp
  | FetchSettled _ _ | JsonSettled _ | Navigated _ => false
  end.


(** ** Inputs of the concrete runs *)

(** In the runs below a search result is represented by its title. *)

Definition only_text (s : string) : SearchParams :=
  {| query := s; domain := Undefined; tag := Undefined; year := Undefined;
     region := Undefined |}.

(** The URL [/?term=]: the parameter [term] is there, with the empty value. *)
Definition empty_term : URLSearchParams.t := [("term", "")].

(** Two calls, the second made while the first is pending; the first returns
    last, with a network error. *)
Definition second_returns_first : list (@Event string) :=
  [OnSearch (only_text "foo");
   OnSearch (only_text "bar");
   FetchSettled 1 (Responded {| status := 200; body := Some ["bar result"] |});
   JsonSettled 1;
   FetchSettled 0 NetworkError].

(** The same two calls; the first returns first. *)
Definition first_returns_first : list (@Event string) :=
  [OnSearch (only_text "foo");
   OnSearch (only_text "bar");
   FetchSettled 0 NetworkError;
   FetchSettled 1 (Responded {| status := 200; body := Some ["bar result"] |});
   JsonSettled 1].

(** ** Query-string construction *)

Module QueryStringFacts.
Import URLSearchParams.

Lemma amp_free_app s1 s2 : amp_free s1 → amp_free s2 → amp_free (s1 +:+ s2).
Proof. induction s1 as [|c s1 IH]; simpl; [done | intros [? ?] ?; auto]. Qed.

Lemma encode_byte_amp_free c : amp_free (encode_byte c).
Proof. destruct c as [[] [] [] [] [] [] [] []]; vm_compute; intuition discriminate. Qed.

Lemma encode_byte_nonempty c : encode_byte c ≠ "".
Proof.
  unfold encode_byte. destruct (unreserved c); [done |].
  destruct (_ =? 32); done.
Qed.

Lemma encode_amp_free s : amp_free (encode s).
Proof.
  induction s as [|c s IH]; simpl; [done |].
  apply amp_free_app; [apply encode_byte_amp_free | done].
Qed.

Lemma encode_empty s : encode s = "" → s = "".
Proof.
  destruct s as [|c s]; [done |]. simpl. intros H.
  pose proof (encode_byte_nonempty c) as Hne.
  destruct (encode_byte c); [done | discriminate].
Qed.

Lemma split_amp_free s : amp_free s → split_amp s = [s].
Proof.
  induction s as [|c s IH]; simpl; [done |]. intros [Hc Hs].
  rewrite bool_decide_eq_false_2 by done. by rewrite IH.
Qed.

Lemma split_amp_app s1 s2 :
  amp_free s1 → split_amp (s1 +:+ "&" +:+ s2) = s1 :: split_amp s2.
Proof.
  induction s1 as [|c s1 IH]; simpl; [done |]. intros [Hc Hs].
  rewrite bool_decide_eq_false_2 by done. by rewrite IH.
Qed.

Lemma split_join segs :
  segs ≠ [] → Forall amp_free segs → split_amp (join_amp segs) = segs.
Proof.
  induction segs as [|s [|s' rest] IH]; intros Hne Hall; [done | |].
  - simpl. apply split_amp_free. by inversion Hall.
  - inversion Hall as [|? ? Hs Hrest]; subst.
    change (join_amp (s :: s' :: rest)) with (s +:+ "&" +:+ join_amp (s' :: rest)).
    rewrite split_amp_app by done. f_equal. by apply IH.
Qed.

Lemma encode_pair_amp_free kv : amp_free (encode_pair kv).
Proof.
  unfold encode_pair. apply amp_free_app; [apply encode_amp_free |].
  apply (amp_free_app "="); [by split | apply encode_amp_free].
Qed.

Lemma append_nonempty_r s1 s2 : s2 ≠ "" → s1 +:+ s2 ≠ "".
Proof. destruct s1; simpl; [done | discriminate]. Qed.

(** The segments of a serialised object are the encoded pairs, one each. *)
Lemma segments_toString (l : t) : segments (toString l) = map encode_pair l.
Proof.
  destruct l as [|kv l]; [done |].
  unfold toString, segments.
  assert (Hne : join_amp (map encode_pair (kv :: l)) ≠ "").
  { simpl. destruct (map encode_pair l).
    - unfold encode_pair. apply append_nonempty_r. done.
    - apply append_nonempty_r. done. }
  destruct (join_amp (map encode_pair (kv :: l))) eqn:E; [done |].
  rewrite <- E. apply split_join; [done |].
  apply Forall_forall. intros seg Hs. apply list_elem_of_In, in_map_iff in Hs.
  destruct Hs as (kv' & <- & _). apply encode_pair_amp_free.
Qed.

Lemma spread_field_truthy k v :
  spread_field k v = if truthy v then [(k, or_empty v)] else [].
Proof. by destruct v. Qed.

Lemma truthy_encode_nonempty v : truthy v = true → encode (or_empty v) ≠ "".
Proof.
  destruct v as [| |s]; simpl; try discriminate.
  intros H Henc. apply encode_empty in Henc. subst s. done.
Qed.

End QueryStringFacts.

(** C1, as the code has it. The query-string always starts with the segment
    [term=<text>], also when the text is empty; after it comes one segment
    [name=<value>] for each of domain, tag, year and region whose value is a
    non-empty string, in this order, and nothing else. So no filter that is
    empty, null or undefined is serialised, and no segment [domain=], [tag=],
    [year=] or [region=] with an empty value occurs. *)
Theorem query_string_omits_empty_filters (p : SearchParams) :
  URLSearchParams.segments (query_string p) =
    ("term=" +:+ URLSearchParams.encode (query p)) ::
    flat_map (λ kv, if truthy kv.2
                    then [kv.1 +:+ "=" +:+ URLSearchParams.encode (or_empty kv.2)]
                    else [])
             (filter_fields p)
  ∧ Forall (λ k, (k +:+ "=") ∉ URLSearchParams.segments (query_string p))
           ["domain"; "tag"; "year"; "region"].
Proof.
  assert (Hseg : URLSearchParams.segments (query_string p) =
    ("term=" +:+ URLSearchParams.encode (query p)) ::
    flat_map (λ kv, if truthy kv.2
                    then [kv.1 +:+ "=" +:+ URLSearchParams.encode (or_empty kv.2)]
                    else [])
             (filter_fields p)).
  { unfold query_string. rewrite QueryStringFacts.segments_toString.
    unfold build_params, filter_fields.
    rewrite !QueryStringFacts.spread_field_truthy. simpl.
    destruct (truthy (domain p)), (truthy (tag p)), (truthy (year p)),
      (truthy (region p)); reflexivity. }
  split; [exact Hseg |].
  rewrite Hseg. unfold filter_fields. simpl.
  pose proof (QueryStringFacts.truthy_encode_nonempty (domain p)) as Hd.
  pose proof (QueryStringFacts.truthy_encode_nonempty (tag p)) as Ht.
  pose proof (QueryStringFacts.truthy_encode_nonempty (year p)) as Hy.
  pose proof (QueryStringFacts.truthy_encode_nonempty (region p)) as Hr.
  destruct (truthy (domain p)), (truthy (tag p)), (truthy (year p)),
    (truthy (region p)); simpl;
    repeat match goal with H : true = true → _ |- _ => specialize (H eq_refl) end;
    repeat (apply Forall_cons; split; [intros Hin |]); try (apply Forall_nil; exact I);
    repeat (apply elem_of_cons in Hin as [Heq | Hin];
            [cbv [String.append] in Heq; simplify_eq; congruence |]);
    by apply elem_of_nil in Hin.
Qed.

(** C1 as stated fails for the search text: with an empty text and no filter
    the query-string is [term=], an empty-valued pair. *)
Lemma query_string_empty_term :
  query_string {| query := ""; domain := Undefined; tag := Undefined;
                  year := Undefined; region := Undefined |} = "term="
  ∧ "term=" ∈ URLSearchParams.segments
       (query_string {| query := ""; domain := Undefined; tag := Undefined;
                        year := Undefined; region := Undefined |}).
Proof. split; [reflexivity |]. vm_compute. apply list_elem_of_here. Qed.

(** ** One call of [handleSearch] *)

Section CallFacts.
Context {SearchResult : Type}.
Implicit Types (w : @World SearchResult) (st : @SearchState SearchResult).
Implicit Types (o : @FetchOutcome SearchResult) (r : @Response SearchResult).

Lemma lookup_new_call (l : list (@Pc SearchResult)) pc :
  (l ++ [pc]) !! length l = Some pc.
Proof. by apply list_lookup_middle. Qed.

Lemma insert_new_call (l : list (@Pc SearchResult)) pc pc' :
  <[length l := pc']> (l ++ [pc]) = l ++ [pc'].
Proof.
  rewrite insert_app_r_alt by done.
  by replace (length l - length l)%nat with 0%nat by lia.
Qed.

Lemma ui_begin p w :
  ui (handleSearch_begin p w) =
    {| isSearching := true; error := Null; results := []; hasSearched := true |}.
Proof. reflexivity. Qed.

Lemma browser_begin p w :
  browser (handleSearch_begin p w) =
    router_push ("/?" +:+ query_string p) {| scroll := false |} (browser w).
Proof. reflexivity. Qed.

Lemma requests_begin p w :
  requests (handleSearch_begin p w) =
    requests w ++ ["/api/search?" +:+ query_string p].
Proof. reflexivity. Qed.

Lemma calls_begin p w : calls (handleSearch_begin p w) = calls w ++ [AwaitFetch].
Proof. reflexivity. Qed.

(** A call that runs alone always returns, and this is the world it leaves. *)
Lemma run_lone_call w p o :
  run w (lone_call (length (calls w)) p o) =
    Some {| ui := lone_call_state o;
            browser := router_push ("/?" +:+ query_string p) {| scroll := false |}
                         (browser w);
            requests := requests w ++ ["/api/search?" +:+ query_string p];
            calls := calls w ++ [Settled] |}.
Proof.
  unfold lone_call. cbn [run step]. rewrite calls_begin, lookup_new_call.
  destruct o as [|r]; cbn [handleSearch_fetched lone_call_state].
  - unfold with_call, with_ui. cbn [run calls ui browser requests].
    by rewrite calls_begin, insert_new_call, ui_begin, browser_begin, requests_begin.
  - destruct (ok r) eqn:Hok.
    + unfold with_call. cbn [run step calls ui browser requests].
      rewrite calls_begin, insert_new_call, lookup_new_call.
      unfold handleSearch_parsed.
      destruct (body r) as [data|] eqn:Hbody;
        unfold with_call, with_ui; cbn [run calls ui browser requests];
        by rewrite insert_new_call, ui_begin, browser_begin, requests_begin.
    + unfold with_call, with_ui. cbn [run calls ui browser requests].
      by rewrite calls_begin, insert_new_call, ui_begin, browser_begin, requests_begin.
Qed.

Lemma fails_lone_call_state o : fails o = true → lone_call_state o = failed_state.
Proof.
  destruct o as [|r]; [done |]. simpl.
  destruct (ok r); simpl; [| done].
  destruct (body r); [| done]. intros H. by apply bool_decide_eq_true in H.
Qed.

Lemma isSearching_lone_call_state o : isSearching (lone_call_state o) = false.
Proof.
  destruct o as [|r]; [done |]. simpl.
  destruct (ok r); [| done]. by destruct (body r).
Qed.

(** ** Several calls *)

(** Every event keeps [hasSearched] once it is [true]. *)
Lemma step_keeps_hasSearched w e w' :
  step w e = Some w' → hasSearched (ui w) = true → hasSearched (ui w') = true.
Proof.
  destruct e as [sp|p|i o|i|b]; simpl.
  - destruct (effect_search sp); intros [= <-]; done.
  - intros [= <-]; done.
  - destruct (calls w !! i) as [[]|]; try discriminate. intros [= <-].
    destruct o as [|r]; simpl; [done |]. by destruct (ok r).
  - destruct (calls w !! i) as [[]|]; try discriminate. intros [= <-].
    unfold handleSearch_parsed. by destruct (body r).
  - intros [= <-]; done.
Qed.

Lemma run_keeps_hasSearched es : ∀ w w',
  run w es = Some w' → hasSearched (ui w) = true → hasSearched (ui w') = true.
Proof.
  induction es as [|e es IH]; intros w w'; simpl.
  - by intros [= <-].
  - destruct (step w e) as [w1|] eqn:Hstep; [| discriminate].
    intros Hrun Hw. eapply IH; [exact Hrun |].
    by eapply step_keeps_hasSearched.
Qed.

Lemma begin_has_pending p w : searching_has_pending (handleSearch_begin p w).
Proof.
  intros _. exists (length (calls w)), AwaitFetch. split; [| done].
  apply lookup_new_call.
Qed.

Lemma step_has_pending w e w' :
  step w e = Some w' → searching_has_pending w → searching_has_pending w'.
Proof.
  destruct e as [sp|p|i o|i|b]; simpl.
  - destruct (effect_search sp); intros [= <-]; [| done].
    intros _. apply begin_has_pending.
  - intros [= <-] _. apply begin_has_pending.
  - destruct (calls w !! i) as [[]|] eqn:Hi; try discriminate. intros [= <-] Hw.
    destruct o as [|r]; simpl; [done |].
    destruct (ok r); [| done].
    intros _. exists i, (AwaitJson r). split; [| done]. simpl.
    apply list_lookup_insert_eq. by eapply lookup_lt_Some.
  - destruct (calls w !! i) as [[]|]; try discriminate. intros [= <-] _.
    unfold handleSearch_parsed. by destruct (body r).
  - intros [= <-] Hw. exact Hw.
Qed.

Lemma run_has_pending es : ∀ w w',
  run w es = Some w' → searching_has_pending w → searching_has_pending w'.
Proof.
  induction es as [|e es IH]; intros w w'; simpl.
  - by intros [= <-].
  - destruct (step w e) as [w1|] eqn:Hstep; [| discriminate].
    intros Hrun Hw. eapply IH; [exact Hrun |].
    by eapply step_has_pending.
Qed.

End CallFacts.

(** ** Reading the URL: facts *)

Lemma truthy_js_or a b : truthy (js_or a b) = truthy a || truthy b.
Proof. unfold js_or. destruct (truthy a) eqn:E; [by rewrite E | done]. Qed.

(** [hasSearchParams()] holds when [get] gives a non-empty string for one of
    the five names. *)
Lemma hasSearchParams_existsb sp :
  hasSearchParams sp = existsb (λ k, truthy (URLSearchParams.get k sp)) recognized.
Proof.
  unfold hasSearchParams, recognized. rewrite !truthy_js_or. simpl.
  by rewrite orb_false_r.
Qed.

Lemma or_undefined_truthy a : or_undefined a = if truthy a then a else Undefined.
Proof. reflexivity. Qed.

Lemma or_empty_js_or a : or_empty (js_or a (Str "")) = or_empty a.
Proof.
  unfold js_or. destruct a as [| |s]; simpl; try done.
  case_bool_decide; simpl; [by subst | done].
Qed.

(** ** The claims about the component *)

Section Claims.
Context {SearchResult : Type}.
Implicit Types (w : @World SearchResult) (st : @SearchState SearchResult).
Implicit Types (o : @FetchOutcome SearchResult) (r : @Response SearchResult).

(** C2. A call of [handleSearch] that runs from any world always returns,
    whatever the outcome of [fetch] and of [response.json()] (network
    error, status outside 200-299, body that does not parse, success), and
    when it has returned [isSearching] is [false]. *)
Theorem isSearching_false_after_call w p o :
  ∃ w', run w (lone_call (length (calls w)) p o) = Some w'
        ∧ calls w' !! length (calls w) = Some Settled
        ∧ isSearching (ui w') = false.
Proof.
  eexists. split; [apply run_lone_call |]. split.
  - apply lookup_new_call.
  - apply isSearching_lone_call_state.
Qed.

(** Under any interleaving: the event with which a call returns leaves
    [isSearching] at [false]. *)
Lemma returning_step_clears_isSearching w e w' i pc :
  step w e = Some w' →
  calls w !! i = Some pc → is_settled pc = false →
  calls w' !! i = Some Settled →
  isSearching (ui w') = false.
Proof.
  intros Hstep Hi Hpc Hi'.
  assert (Hlt : (i < length (calls w))%nat) by by eapply lookup_lt_Some.
  destruct e as [sp|p0|j o|j|b]; simpl in Hstep.
  - destruct (effect_search sp); injection Hstep as <-.
    + rewrite calls_begin, lookup_app_l, Hi in Hi' by done.
      injection Hi' as ->. done.
    + rewrite Hi in Hi'. injection Hi' as ->. done.
  - injection Hstep as <-.
    rewrite calls_begin, lookup_app_l, Hi in Hi' by done.
    injection Hi' as ->. done.
  - destruct (calls w !! j) as [[]|] eqn:Hj; try discriminate.
    injection Hstep as <-.
    destruct o as [|r]; simpl in *; [done |].
    destruct (ok r); simpl in *; [| done].
    destruct (decide (j = i)) as [->|Hne].
    + rewrite list_lookup_insert_eq in Hi' by done. discriminate.
    + rewrite list_lookup_insert_ne, Hi in Hi' by done.
      injection Hi' as ->. done.
  - destruct (calls w !! j) as [[]|] eqn:Hj; try discriminate.
    injection Hstep as <-. unfold handleSearch_parsed.
    by destruct (body r).
  - injection Hstep as <-. simpl in Hi'. rewrite Hi in Hi'.
    injection Hi' as ->. done.
Qed.

(** The return of a call through the [catch] block, under any interleaving:
    the message and [isSearching = false] are stored, [results] and
    [hasSearched] are not touched, and the call has returned. *)
Lemma catch_step w e :
  returns_by_catch w e = true →
  ∃ w', step w e = Some w'
        ∧ error (ui w') = Str failure_message
        ∧ isSearching (ui w') = false
        ∧ results (ui w') = results (ui w)
        ∧ hasSearched (ui w') = hasSearched (ui w).
Proof.
  destruct e as [sp|p0|i o|i|b]; simpl; try discriminate.
  - destruct (calls w !! i) as [[]|]; try discriminate.
    destruct o as [|r]; simpl.
    + intros _. eexists. by split.
    + intros Hok. apply negb_true_iff in Hok. rewrite Hok. eexists. by split.
  - destruct (calls w !! i) as [[]|]; try discriminate.
    intros Hbody. apply bool_decide_eq_true in Hbody.
    unfold handleSearch_parsed. rewrite Hbody. eexists. by split.
Qed.

(** C3, as the code has it. When a call of [handleSearch] returns through
    the [catch] block, whether [fetch] rejected, the status was outside
    200-299 or the body did not parse, and whatever other calls are under
    way, [error] becomes the message [Search failed. Please try again.],
    [isSearching] becomes [false] and [results] stays as it was just before.
    For a call that runs with no other call in between this gives the same
    state in every case, with [results] empty (and [hasSearched] [true]). *)
Theorem failed_search_error_and_results w e p o :
  (returns_by_catch w e = true →
   ∃ w', step w e = Some w'
         ∧ error (ui w') = Str "Search failed. Please try again."
         ∧ isSearching (ui w') = false
         ∧ results (ui w') = results (ui w))
  ∧ (fails o = true →
     ∃ w', run w (lone_call (length (calls w)) p o) = Some w'
           ∧ ui w' = {| isSearching := false;
                        error := Str "Search failed. Please try again.";
                        results := [];
                        hasSearched := true |}).
Proof.
  split.
  - intros He. destruct (catch_step w e He) as (w' & Hstep & Herr & Hs & Hres & _).
    by exists w'.
  - intros Hf. eexists. split; [apply run_lone_call |].
    simpl. by rewrite fails_lone_call_state.
Qed.

(** [push] to another URL lengthens the way back by one entry, [push] to the
    current URL does not; [replace] keeps the history as long as it was. *)
Lemma router_push_back href opts (b : Browser) :
  href ≠ current b →
  length (back (router_push href opts b)) = S (length (back b)).
Proof. intros H. unfold router_push. by rewrite bool_decide_eq_false_2. Qed.

Lemma current_router_push href opts (b : Browser) :
  current (router_push href opts b) = href.
Proof. unfold router_push. by destruct (bool_decide (href = current b)). Qed.

Lemma router_push_same opts (b : Browser) :
  history_length (router_push (current b) opts b) = history_length b.
Proof. unfold router_push. by rewrite bool_decide_eq_true_2. Qed.

Lemma router_replace_history_length href opts (b : Browser) :
  history_length (router_replace href opts b) = history_length b.
Proof. reflexivity. Qed.

(** C4, as the code has it. Every call of [handleSearch] navigates with
    [router.push] to [/?] followed by the query-string, with scrolling
    switched off: the location becomes that URL and the scroll position is
    kept. When that URL differs from the location the page is at, the
    previous location is added to the history as a new entry behind the
    current one (and the entries ahead are dropped); when the page is
    already at that URL, the history keeps its entries. *)
Theorem handleSearch_pushes_history p w :
  let b := browser w in
  let b' := browser (handleSearch_begin p w) in
  let href := "/?" +:+ query_string p in
  current b' = href
  ∧ scrollY b' = scrollY b
  ∧ back b' = (if bool_decide (href = current b) then back b else current b :: back b)
  ∧ forward b' = (if bool_decide (href = current b) then forward b else [])
  ∧ step w (OnSearch p) = Some (handleSearch_begin p w).
Proof.
  intros b b' href. subst b'. rewrite browser_begin. fold href. fold b.
  unfold router_push. by destruct (bool_decide (href = current b)).
Qed.

(** C5, as the code has it. When the effect runs (on mount and when the URL
    parameters change) it starts a search exactly when [get] gives a
    non-empty string for one of term, domain, tag, year, region. The search
    then has the value of [term] as its text (the empty text when [term] is
    missing) and, as filters, exactly those of domain, tag, year, region
    whose value is non-empty, the others being [undefined]. Otherwise the
    effect changes nothing. *)
Theorem params_changed_search sp w :
  let nonempty k := truthy (URLSearchParams.get k sp) in
  let filter k := if nonempty k then URLSearchParams.get k sp else Undefined in
  step w (ParamsChanged sp) =
    if existsb nonempty recognized
    then Some (handleSearch_begin
                 {| query := or_empty (URLSearchParams.get "term" sp);
                    domain := filter "domain";
                    tag := filter "tag";
                    year := filter "year";
                    region := filter "region" |} w)
    else Some w.
Proof.
  intros nonempty filter. cbn [step]. unfold effect_search.
  rewrite hasSearchParams_existsb. fold nonempty.
  destruct (existsb nonempty recognized) eqn:Hex; [| done].
  unfold performInitialSearch. fold (hasSearchParams sp).
  rewrite hasSearchParams_existsb. fold nonempty. rewrite Hex.
  by rewrite or_empty_js_or, !or_undefined_truthy.
Qed.

(** C6, as the code has it. The centered layout is shown exactly when
    [hasSearched] is [false] and [get] gives a non-empty string for none of
    term, domain, tag, year, region; otherwise the compact layout is shown. *)
Theorem showCenteredSearch_spec st sp :
  showCenteredSearch st sp =
    negb (hasSearched st)
    && forallb (λ k, negb (truthy (URLSearchParams.get k sp))) recognized.
Proof.
  unfold showCenteredSearch. rewrite hasSearchParams_existsb. f_equal.
  unfold recognized. cbn [existsb forallb].
  by rewrite !negb_orb.
Qed.

(** C7, as the code has it. The introduction and the post list are shown
    exactly when the centered layout is active, or [results] is empty and
    [isSearching] is [false]. A search that resolves with an empty list makes
    them visible, and they are hidden only when the [results] held in the
    state are non-empty, whether the results panel is rendered or not, or a
    search is in progress. *)
Theorem intro_and_posts_visibility st sp :
  (showIntroAndPosts st sp = true ↔
     showCenteredSearch st sp = true ∨ (results st = [] ∧ isSearching st = false))
  ∧ (showIntroAndPosts st sp = false → results st ≠ [] ∨ isSearching st = true)
  ∧ (∀ w p r, ok r = true → body r = Some [] →
       ∃ w', run w (lone_call (length (calls w)) p (Responded r)) = Some w'
             ∧ showIntroAndPosts (ui w') sp = true).
Proof.
  assert (Hiff : showIntroAndPosts st sp = true ↔
     showCenteredSearch st sp = true ∨ (results st = [] ∧ isSearching st = false)).
  { unfold showIntroAndPosts.
    rewrite orb_true_iff, andb_true_iff, bool_decide_eq_true, negb_true_iff.
    by rewrite length_zero_iff_nil. }
  split; [exact Hiff |]. split.
  - intros Hhidden. destruct (results st) as [|x l] eqn:Hres; [| by left].
    right. destruct (isSearching st) eqn:Hs; [done |].
    assert (showIntroAndPosts st sp = true) as Hshown by (apply Hiff; auto).
    congruence.
  - intros w p r Hok Hbody. eexists. split; [apply run_lone_call |].
    cbn [ui lone_call_state]. rewrite Hok, Hbody.
    reflexivity.
Qed.

(** C8. [hasSearched] is [false] on page load; the first lines of
    [handleSearch] make it [true]; and from a world where it is [true] no
    sequence of events of the component leads to one where it is [false]. *)
Theorem hasSearched_never_reverts url p w es w' :
  hasSearched (ui (@initial_world SearchResult url)) = false
  ∧ hasSearched (ui (handleSearch_begin p w)) = true
  ∧ (run w es = Some w' → hasSearched (ui w) = true → hasSearched (ui w') = true).
Proof.
  split; [done |]. split; [done |]. apply run_keeps_hasSearched.
Qed.

(** C9. Whatever calls of [handleSearch] were made since page load, however
    they overlap and in whatever order they return: once every call has
    returned, [isSearching] is [false]. *)
Theorem isSearching_not_stuck url es w :
  run (initial_world url) es = Some w →
  Forall (λ pc, is_settled pc = true) (calls w) →
  isSearching (ui w) = false.
Proof.
  intros Hrun Hall.
  destruct (isSearching (ui w)) eqn:Hs; [| done].
  assert (Hinv : searching_has_pending w).
  { eapply run_has_pending; [exact Hrun |]. intros Hinit. discriminate. }
  destruct (Hinv Hs) as (i & pc & Hi & Hpc).
  rewrite Forall_forall in Hall.
  assert (is_settled pc = true) by (apply Hall; by eapply list_elem_of_lookup_2).
  congruence.
Qed.

(** C10, as the code has it. The results panel is rendered exactly when
    [get] gives a non-empty string for one of term, domain, tag, year,
    region, whatever the state cells hold. *)
Theorem showSearchResults_spec st sp :
  showSearchResults st sp =
    existsb (λ k, truthy (URLSearchParams.get k sp)) recognized.
Proof. apply hasSearchParams_existsb. Qed.

End Claims.

(** ** Concrete runs *)

(** The URL parameters [term=foo&year=2020] start a search for the text [foo]
    in the year 2020, without any other filter. *)
Example effect_search_foo_2020 :
  effect_search [("term", "foo"); ("year", "2020")] =
    Some {| query := "foo"; domain := Undefined; tag := Undefined;
            year := Str "2020"; region := Undefined |}.
Proof. reflexivity. Qed.

(** A filter alone is enough: [domain=x] starts a search with the empty text,
    whose query-string is [term=&domain=x]. *)
Example effect_search_domain_only :
  effect_search [("domain", "x")] =
    Some {| query := ""; domain := Str "x"; tag := Undefined; year := Undefined;
            region := Undefined |}
  ∧ query_string {| query := ""; domain := Str "x"; tag := Undefined;
                    year := Undefined; region := Undefined |} = "term=&domain=x".
Proof. split; reflexivity. Qed.

(** Bytes outside the unreserved set are escaped, so a value cannot add a
    segment of its own. *)
Example query_string_escapes :
  query_string {| query := "a b&c"; domain := Str "x=y"; tag := Str "";
                  year := Null; region := Undefined |} = "term=a+b%26c&domain=x%3Dy".
Proof. reflexivity. Qed.

Lemma failed_search_error_and_results_witness :
  (∃ w', step (handleSearch_begin (only_text "foo") (@initial_world string "/"))
              (FetchSettled 0 (Responded {| status := 500; body := None |})) = Some w'
         ∧ error (ui w') = Str "Search failed. Please try again."
         ∧ isSearching (ui w') = false
         ∧ results (ui w') =
             results (ui (handleSearch_begin (only_text "foo") (@initial_world string "/"))))
  ∧ (∃ w', run (@initial_world string "/")
               (lone_call 0 (only_text "foo")
                  (Responded {| status := 500; body := None |})) = Some w'
           ∧ ui w' = {| isSearching := false;
                        error := Str "Search failed. Please try again.";
                        results := [];
                        hasSearched := true |}).
Proof.
  split.
  - apply (proj1 (failed_search_error_and_results
                    (handleSearch_begin (only_text "foo") (@initial_world string "/"))
                    (FetchSettled 0 (Responded {| status := 500; body := None |}))
                    (only_text "foo") NetworkError)).
    reflexivity.
  - apply (proj2 (failed_search_error_and_results
                    (@initial_world string "/") (JsonSettled 0)
                    (only_text "foo") (Responded {| status := 500; body := None |}))).
    reflexivity.
Defined.

(** C3 as stated fails when calls overlap: the first call fails and returns
    last, after the second call has stored its results; the state then holds
    the error and these results. *)
Lemma failed_call_beside_results :
  returns_by_catch
    (default (initial_world "/")
       (run (initial_world "/")
          [OnSearch (only_text "foo");
           OnSearch (only_text "bar");
           FetchSettled 1 (Responded {| status := 200; body := Some ["bar result"] |});
           JsonSettled 1]))
    (FetchSettled 0 NetworkError) = true
  ∧ (ui <$> run (initial_world "/") second_returns_first)
    = Some {| isSearching := false;
              error := Str "Search failed. Please try again.";
              results := ["bar result"];
              hasSearched := true |}.
Proof. split; reflexivity. Qed.

(** The same state after a network error and after a body that is not JSON. *)
Example failed_search_state_other_failures :
  (ui <$> run (@initial_world string "/") (lone_call 0 (only_text "foo") NetworkError))
    = Some failed_state
  ∧ (ui <$> run (@initial_world string "/")
              (lone_call 0 (only_text "foo")
                 (Responded {| status := 200; body := None |})))
    = Some failed_state.
Proof. split; reflexivity. Qed.

(** C4 as stated fails: after a search from a page loaded at [/] the history
    has two entries, and the back button leads to [/]. *)
Lemma handleSearch_adds_history_entry :
  history_length (browser (@initial_world string "/")) = 1%nat
  ∧ history_length
      (browser (handleSearch_begin (only_text "foo") (@initial_world string "/")))
    = 2%nat
  ∧ back (browser (handleSearch_begin (only_text "foo") (@initial_world string "/")))
    = ["/"].
Proof. repeat split. Qed.

(** C5 as stated fails: at [/?term=] a recognized parameter is present, and
    the effect starts no search. *)
Lemma effect_ignores_empty_term :
  URLSearchParams.has "term" empty_term = true
  ∧ effect_search empty_term = None
  ∧ step (@initial_world string "/?term=") (ParamsChanged empty_term)
    = Some (initial_world "/?term=").
Proof. repeat split. Qed.

(** C6 as stated fails: at [/?term=] a recognized parameter is present, and
    before any search the centered layout is shown. *)
Lemma centered_with_empty_term :
  URLSearchParams.has "term" empty_term = true
  ∧ showCenteredSearch (@initial_state string) empty_term = true.
Proof. split; reflexivity. Qed.

Lemma intro_and_posts_visibility_witness :
  ∃ w', run (@initial_world string "/")
            (lone_call 0 (only_text "foo")
               (Responded {| status := 200; body := Some [] |})) = Some w'
        ∧ showIntroAndPosts (ui w') [("term", "foo")] = true.
Proof.
  apply (proj2 (proj2 (intro_and_posts_visibility
                         (@initial_state string) [("term", "foo")]))
           (initial_world "/") (only_text "foo")
           {| status := 200; body := Some [] |});
    reflexivity.
Defined.

(** While results are on display the introduction and the posts are hidden. *)
Example intro_hidden_with_results :
  showIntroAndPosts (succeeded_state ["a result"]) [("term", "foo")] = false.
Proof. reflexivity. Qed.

(** C7 as stated fails in its last part: after a search that found results
    the page goes back to [/]; the results are still in the state, the URL
    has no parameter, so the results panel is not rendered and no search is
    in progress, and the introduction and the posts are hidden all the
    same. *)
Lemma intro_hidden_without_results_on_display :
  (ui <$> run (initial_world "/")
            [OnSearch (only_text "foo");
             FetchSettled 0 (Responded {| status := 200; body := Some ["a result"] |});
             JsonSettled 0;
             Navigated {| back := []; current := "/"; forward := ["/?term=foo"];
                          scrollY := 0 |};
             ParamsChanged []])
  = Some (succeeded_state ["a result"])
  ∧ showIntroAndPosts (succeeded_state ["a result"]) [] = false
  ∧ showSearchResults (succeeded_state ["a result"]) [] = false
  ∧ isSearching (succeeded_state ["a result"]) = false.
Proof. repeat split. Qed.

Lemma hasSearched_never_reverts_witness :
  hasSearched (ui (handleSearch_fetched 0 NetworkError
                     (handleSearch_begin (only_text "foo") (@initial_world string "/"))))
  = true.
Proof.
  apply (proj2 (proj2 (hasSearched_never_reverts "/" (only_text "foo")
                         (handleSearch_begin (only_text "foo") (initial_world "/"))
                         [FetchSettled 0 NetworkError]
                         (handleSearch_fetched 0 NetworkError
                            (handleSearch_begin (only_text "foo") (initial_world "/")))))).
  - reflexivity.
  - reflexivity.
Defined.

Lemma isSearching_not_stuck_witness :
  ∃ w, run (initial_world "/") second_returns_first = Some w
       ∧ isSearching (ui w) = false.
Proof.
  eexists. split; [reflexivity |].
  apply (isSearching_not_stuck "/" second_returns_first); [reflexivity |].
  repeat constructor.
Defined.

Example isSearching_not_stuck_other_order :
  (isSearching ∘ ui <$> run (initial_world "/") first_returns_first) = Some false.
Proof. reflexivity. Qed.

(** The race the component does not exclude: between the return of one call
    and the return of the other, [isSearching] is [false] although a request
    is pending; and when the failing call returns last, its error stands
    next to the results of the other call. *)
Example overlapping_calls_race :
  (isSearching ∘ ui <$>
     run (initial_world "/")
       [OnSearch (only_text "foo"); OnSearch (only_text "bar");
        FetchSettled 0 (@NetworkError string)]) = Some false
  ∧ (ui <$> run (initial_world "/") second_returns_first)
    = Some {| isSearching := false; error := Str failure_message;
              results := ["bar result"]; hasSearched := true |}.
Proof. split; reflexivity. Qed.

(** C10 as stated fails: at [/?term=] a recognized parameter is present, and
    the results panel is not rendered, also after a search that left an
    error in the state. *)
Lemma results_panel_hidden_with_empty_term :
  URLSearchParams.has "term" empty_term = true
  ∧ showSearchResults (@failed_state string) empty_term = false.
Proof. split; reflexivity. Qed.

(** ** Reading back what [toString()] wrote *)

Lemma plus_to_space_app s1 s2 :
  plus_to_space (s1 +:+ s2) = plus_to_space s1 +:+ plus_to_space s2.
Proof. induction s1 as [|c s1 IH]; simpl; [done | by rewrite IH]. Qed.

Lemma decode_encode_byte c rest :
  percent_decode (plus_to_space (URLSearchParams.encode_byte c) +:+ rest)
  = String c (percent_decode rest).
Proof. destruct c as [[] [] [] [] [] [] [] []]; reflexivity. Qed.

Lemma decode_encode s :
  percent_decode (plus_to_space (URLSearchParams.encode s)) = s.
Proof.
  induction s as [|c s IH]; [done |].
  cbn [URLSearchParams.encode]. rewrite plus_to_space_app, decode_encode_byte.
  by rewrite IH.
Qed.

Lemma all_bytes_app P s1 s2 :
  all_bytes P (s1 +:+ s2) = all_bytes P s1 && all_bytes P s2.
Proof. induction s1 as [|c s1 IH]; simpl; [done | by rewrite IH, andb_assoc]. Qed.

Lemma split_eq_app e rest :
  all_bytes (λ c, negb (bool_decide (c = "="%char))) e = true →
  split_eq (e +:+ "=" +:+ rest) = (e, rest).
Proof.
  induction e as [|c e IH]; [done |]. simpl.
  intros [Hc He]%andb_true_iff. apply negb_true_iff in Hc. rewrite Hc.
  by rewrite IH.
Qed.

Lemma encode_byte_no_eq c :
  all_bytes (λ c, negb (bool_decide (c = "="%char))) (URLSearchParams.encode_byte c) = true.
Proof. destruct c as [[] [] [] [] [] [] [] []]; reflexivity. Qed.

Lemma encode_no_eq s :
  all_bytes (λ c, negb (bool_decide (c = "="%char))) (URLSearchParams.encode s) = true.
Proof.
  induction s as [|c s IH]; [done |].
  cbn [URLSearchParams.encode]. by rewrite all_bytes_app, encode_byte_no_eq, IH.
Qed.

Lemma split_eq_encode k value :
  split_eq (URLSearchParams.encode k +:+ "=" +:+ value)
  = (URLSearchParams.encode k, value).
Proof. apply split_eq_app, encode_no_eq. Qed.

Lemma parse_segment_encode_pair kv : parse_segment (URLSearchParams.encode_pair kv) = [kv].
Proof.
  destruct kv as [k v]. unfold parse_segment, URLSearchParams.encode_pair. cbn [fst snd].
  destruct (URLSearchParams.encode k +:+ "=" +:+ URLSearchParams.encode v) eqn:E.
  - exfalso. revert E. apply QueryStringFacts.append_nonempty_r. done.
  - rewrite <- E, split_eq_encode. by rewrite !decode_encode.
Qed.

(** Parsing the serialisation of a params object gives the object back. *)
Lemma parse_query_toString (l : URLSearchParams.t) :
  parse_query (URLSearchParams.toString l) = l.
Proof.
  unfold parse_query, URLSearchParams.toString.
  destruct l as [|kv l]; [done |].
  rewrite QueryStringFacts.split_join.
  - induction (kv :: l) as [|kv' l' IH]; [done |].
    cbn [map flat_map]. by rewrite parse_segment_encode_pair, IH.
  - done.
  - apply Forall_forall. intros seg Hs. apply list_elem_of_In, in_map_iff in Hs.
    destruct Hs as (kv' & <- & _). apply QueryStringFacts.encode_pair_amp_free.
Qed.

(** ** What [handleSearch] writes and what the effect reads *)

Lemma truthy_Str_or_empty v : truthy v = true → Str (or_empty v) = v.
Proof. by destruct v. Qed.

Lemma spread_field_or_undefined k v : spread_field k (or_undefined v) = spread_field k v.
Proof.
  unfold or_undefined, js_or. destruct (truthy v) eqn:E; [done |].
  rewrite (QueryStringFacts.spread_field_truthy k v). by rewrite E.
Qed.

Lemma spread_field_or_empty_string k v : spread_field k (js_or v (Str "")) = spread_field k v.
Proof.
  unfold js_or. destruct (truthy v) eqn:E; [done |].
  rewrite (QueryStringFacts.spread_field_truthy k v). by rewrite E.
Qed.

Lemma get_term_build_params p : URLSearchParams.get "term" (build_params p) = Str (query p).
Proof. reflexivity. Qed.

Lemma get_filters_build_params p :
  URLSearchParams.get "domain" (build_params p) = (if truthy (domain p) then domain p else Null)
  ∧ URLSearchParams.get "tag" (build_params p) = (if truthy (tag p) then tag p else Null)
  ∧ URLSearchParams.get "year" (build_params p) = (if truthy (year p) then year p else Null)
  ∧ URLSearchParams.get "region" (build_params p) = (if truthy (region p) then region p else Null).
Proof.
  unfold build_params. rewrite !QueryStringFacts.spread_field_truthy.
  pose proof (truthy_Str_or_empty (domain p)) as Hd.
  pose proof (truthy_Str_or_empty (tag p)) as Ht.
  pose proof (truthy_Str_or_empty (year p)) as Hy.
  pose proof (truthy_Str_or_empty (region p)) as Hr.
  destruct (truthy (domain p)), (truthy (tag p)), (truthy (year p)),
    (truthy (region p)); cbn; auto.
Qed.

Lemma or_undefined_if v : or_undefined (if truthy v then v else Null) = or_undefined v.
Proof. unfold or_undefined, js_or. by destruct (truthy v) eqn:E; rewrite ?E. Qed.

Lemma truthy_if v : truthy (if truthy v then v else Null) = truthy v.
Proof. by destruct (truthy v) eqn:E. Qed.

(** Reading back the params object of a search: the effect starts a search
    exactly when the text or a filter is non-empty, and this search has the
    same text and the same non-empty filters. *)
Lemma effect_search_build_params p :
  effect_search (build_params p) =
    if negb (bool_decide (query p = ""))
       || truthy (domain p) || truthy (tag p) || truthy (year p) || truthy (region p)
    then Some {| query := query p;
                 domain := or_undefined (domain p);
                 tag := or_undefined (tag p);
                 year := or_undefined (year p);
                 region := or_undefined (region p) |}
    else None.
Proof.
  unfold effect_search, performInitialSearch.
  fold (hasSearchParams (build_params p)).
  rewrite hasSearchParams_existsb. unfold recognized. cbn [existsb].
  destruct (get_filters_build_params p) as (-> & -> & -> & ->).
  rewrite get_term_build_params, !truthy_if, !or_undefined_if, or_empty_js_or.
  rewrite orb_false_r, !orb_assoc. cbn [truthy or_empty].
  by destruct (_ || _).
Qed.

Lemma build_params_or_undefined p :
  build_params {| query := query p;
                  domain := or_undefined (domain p);
                  tag := or_undefined (tag p);
                  year := or_undefined (year p);
                  region := or_undefined (region p) |} = build_params p.
Proof. unfold build_params. cbn [query domain tag year region]. by rewrite !spread_field_or_undefined. Qed.

Lemma query_string_or_undefined p :
  query_string {| query := query p;
                  domain := or_undefined (domain p);
                  tag := or_undefined (tag p);
                  year := or_undefined (year p);
                  region := or_undefined (region p) |} = query_string p.
Proof. unfold query_string. by rewrite build_params_or_undefined. Qed.

(** X2. A page loaded at the URL that [handleSearch] pushed for [p]: the
    effect starts a search exactly when the text or one of the four filters
    of [p] is non-empty; after a search with an empty text and no filter
    (URL [/?term=]) it starts none. *)
Theorem reload_repeats_search p :
  is_Some (effect_search (parse_query (query_string p))) ↔
    negb (bool_decide (query p = ""))
    || truthy (domain p) || truthy (tag p) || truthy (year p) || truthy (region p) = true.
Proof.
  unfold query_string. rewrite parse_query_toString, effect_search_build_params.
  destruct (_ || _).
  - split; [done | by eexists].
  - split; [by intros [? ?] | done].
Qed.

(** X3. The search that the effect starts from the URL pushed for [p] asks
    for the same query-string as the search for [p]: the pushed URL is a
    fixed point of reading and writing. *)
Theorem retriggered_search_same_url p p' :
  effect_search (parse_query (query_string p)) = Some p' →
  query_string p' = query_string p.
Proof.
  unfold query_string at 1. rewrite parse_query_toString, effect_search_build_params.
  destruct (_ || _); [| discriminate]. intros [= <-].
  unfold query_string. by rewrite build_params_or_undefined.
Qed.

(** X4. Two searches with the same text and, for each of domain, tag, year
    and region, the same non-empty value or no non-empty value at all, have
    the same query-string: in a filter the empty string, [null] and
    [undefined] are not told apart. *)
Theorem query_string_ignores_empty_filters p1 p2 :
  query p1 = query p2 →
  or_undefined (domain p1) = or_undefined (domain p2) →
  or_undefined (tag p1) = or_undefined (tag p2) →
  or_undefined (year p1) = or_undefined (year p2) →
  or_undefined (region p1) = or_undefined (region p2) →
  query_string p1 = query_string p2.
Proof.
  intros Hq Hd Ht Hy Hr.
  unfold query_string. f_equal.
  rewrite <- (build_params_or_undefined p1), <- (build_params_or_undefined p2).
  by rewrite Hq, Hd, Ht, Hy, Hr.
Qed.

(** X6. When the effect starts a search from the URL, the values that
    prefill the search form give the same query-string as that search. *)
Theorem initialValues_same_request sp p :
  effect_search sp = Some p →
  query_string (initialValues sp) = query_string p.
Proof.
  unfold effect_search. destruct (hasSearchParams sp); [| discriminate].
  unfold performInitialSearch. destruct (truthy _); [| discriminate].
  intros [= <-]. unfold query_string, build_params, initialValues.
  cbn [query domain tag year region].
  by rewrite !spread_field_or_undefined, !spread_field_or_empty_string.
Qed.

(** ** Keys the component does not read *)

Lemma get_app k l1 l2 :
  URLSearchParams.get k (l1 ++ l2) =
    if URLSearchParams.has k l1 then URLSearchParams.get k l1 else URLSearchParams.get k l2.
Proof.
  induction l1 as [|[k' v'] l1 IH]; [done |].
  cbn. destruct (bool_decide (k' = k)); [done | exact IH].
Qed.

Lemma get_cons_ne k k' v l : k' ≠ k → URLSearchParams.get k ((k', v) :: l) = URLSearchParams.get k l.
Proof. intros H. cbn. by rewrite bool_decide_eq_false_2. Qed.

(** What the component reads from the URL depends only on what [get] gives
    for the five names. *)
Lemma reads_only_recognized sp1 sp2 :
  Forall (λ k, URLSearchParams.get k sp1 = URLSearchParams.get k sp2) recognized →
  effect_search sp1 = effect_search sp2
  ∧ hasSearchParams sp1 = hasSearchParams sp2
  ∧ initialValues sp1 = initialValues sp2.
Proof.
  unfold recognized. intros H.
  repeat (apply Forall_cons in H as [? H]).
  unfold effect_search, performInitialSearch, hasSearchParams, initialValues.
  repeat match goal with E : URLSearchParams.get _ sp1 = _ |- _ => rewrite E; clear E end.
  done.
Qed.

(** X8. A parameter with a name other than term, domain, tag, year, region,
    anywhere in the URL, changes neither the search that the effect starts,
    nor [hasSearchParams()], nor the prefilled form values. *)
Theorem unrecognized_key_ignored k v sp1 sp2 :
  k ∉ recognized →
  effect_search (sp1 ++ (k, v) :: sp2) = effect_search (sp1 ++ sp2)
  ∧ hasSearchParams (sp1 ++ (k, v) :: sp2) = hasSearchParams (sp1 ++ sp2)
  ∧ initialValues (sp1 ++ (k, v) :: sp2) = initialValues (sp1 ++ sp2).
Proof.
  intros Hk. apply reads_only_recognized.
  apply Forall_forall. intros k' Hk'.
  rewrite !get_app. destruct (URLSearchParams.has k' sp1); [done |].
  apply get_cons_ne. intros ->. done.
Qed.

(** X9. Of a name that occurs several times in the URL only the first
    occurrence counts: a later pair with a name already present changes
    nothing, also when the first value is empty and the later one is not. *)
Theorem later_duplicate_ignored k v sp1 sp2 :
  URLSearchParams.has k sp1 = true →
  effect_search (sp1 ++ (k, v) :: sp2) = effect_search (sp1 ++ sp2)
  ∧ hasSearchParams (sp1 ++ (k, v) :: sp2) = hasSearchParams (sp1 ++ sp2)
  ∧ initialValues (sp1 ++ (k, v) :: sp2) = initialValues (sp1 ++ sp2).
Proof.
  intros Hk. apply reads_only_recognized.
  apply Forall_forall. intros k' Hk'.
  rewrite !get_app. destruct (URLSearchParams.has k' sp1) eqn:E; [done |].
  apply get_cons_ne. intros ->. congruence.
Qed.

(** ** The bytes of a query-string *)

Lemma encode_byte_url_safe c : all_bytes url_safe (URLSearchParams.encode_byte c) = true.
Proof. destruct c as [[] [] [] [] [] [] [] []]; reflexivity. Qed.

Lemma encode_url_safe s : all_bytes url_safe (URLSearchParams.encode s) = true.
Proof.
  induction s as [|c s IH]; [done |].
  cbn [URLSearchParams.encode]. by rewrite all_bytes_app, encode_byte_url_safe, IH.
Qed.

(** X5. A serialised params object consists of ASCII letters and digits and
    the bytes [*-._+%=&] only; a text or a filter cannot put a space, [#],
    [?] or [/] into the URL that is pushed and fetched. *)
Theorem toString_url_safe (l : URLSearchParams.t) :
  all_bytes url_safe (URLSearchParams.toString l) = true.
Proof.
  unfold URLSearchParams.toString.
  induction l as [|kv [|kv' l] IH]; [done | |].
  - cbn. unfold URLSearchParams.encode_pair.
    by rewrite !all_bytes_app, !encode_url_safe.
  - change (all_bytes url_safe
              (URLSearchParams.encode_pair kv +:+ "&" +:+
               URLSearchParams.join_amp (map URLSearchParams.encode_pair (kv' :: l))) = true).
    rewrite !all_bytes_app, IH. unfold URLSearchParams.encode_pair.
    by rewrite !all_bytes_app, !encode_url_safe.
Qed.

(** ** Runs of the component *)

Lemma effect_search_cases sp :
  (hasSearchParams sp = true ∧ ∃ p, effect_search sp = Some p)
  ∨ (hasSearchParams sp = false ∧ effect_search sp = None).
Proof.
  unfold effect_search. destruct (hasSearchParams sp) eqn:E; [left | right; done].
  split; [done |]. unfold performInitialSearch.
  unfold hasSearchParams in E. rewrite E. eauto.
Qed.

Section RunFacts.
Context {SearchResult : Type}.
Implicit Types (w : @World SearchResult) (st : @SearchState SearchResult).
Implicit Types (o : @FetchOutcome SearchResult) (r : @Response SearchResult).
Implicit Types (e : @Event SearchResult) (es : list (@Event SearchResult)).

(** X10. A call of [handleSearch] that runs alone and gets a response with a
    status in 200-299 and a body that parses leaves [results] equal to the
    parsed list, in the order received, [error] at [null] whatever it was
    before, [isSearching] at [false] and [hasSearched] at [true]. *)
Theorem successful_search_state w p r data :
  ok r = true → body r = Some data →
  ∃ w', run w (lone_call (length (calls w)) p (Responded r)) = Some w'
        ∧ ui w' = {| isSearching := false; error := Null; results := data;
                     hasSearched := true |}.
Proof.
  intros Hok Hbody. eexists. split; [apply run_lone_call |].
  cbn [ui lone_call_state]. by rewrite Hok, Hbody.
Qed.

(** The return of a call, of either kind, touches the state cells and the
    entry of the call, nothing else. *)
Lemma fetched_frame i o w :
  browser (handleSearch_fetched i o w) = browser w
  ∧ requests (handleSearch_fetched i o w) = requests w
  ∧ length (calls (handleSearch_fetched i o w)) = length (calls w)
  ∧ hasSearched (ui (handleSearch_fetched i o w)) = hasSearched (ui w).
Proof.
  destruct o as [|r]; simpl; [by rewrite length_insert |].
  destruct (ok r); simpl; by rewrite length_insert.
Qed.

Lemma parsed_frame i r w :
  browser (handleSearch_parsed i r w) = browser w
  ∧ requests (handleSearch_parsed i r w) = requests w
  ∧ length (calls (handleSearch_parsed i r w)) = length (calls w)
  ∧ hasSearched (ui (handleSearch_parsed i r w)) = hasSearched (ui w).
Proof.
  unfold handleSearch_parsed. destruct (body r); simpl; by rewrite length_insert.
Qed.

(** An event that does not call [handleSearch] leaves the requests, the
    number of calls and [hasSearched] as they are. *)
Lemma step_frame w e w' :
  starts_search e = false →
  step w e = Some w' →
  requests w' = requests w
  ∧ length (calls w') = length (calls w)
  ∧ hasSearched (ui w') = hasSearched (ui w).
Proof.
  destruct e as [sp|p|i o|i|b]; simpl; intros Hs Hstep.
  - destruct (effect_search_cases sp) as [[H _]|[_ H]]; [congruence |].
    rewrite H in Hstep. by injection Hstep as <-.
  - discriminate.
  - destruct (calls w !! i) as [[]|]; try discriminate.
    injection Hstep as <-. by destruct (fetched_frame i o w) as (_ & ? & ? & ?).
  - destruct (calls w !! i) as [[]|]; try discriminate.
    injection Hstep as <-. by destruct (parsed_frame i r w) as (_ & ? & ? & ?).
  - by injection Hstep as <-.
Qed.

Lemma start_step w e w' :
  starts_search e = true →
  step w e = Some w' →
  ∃ p, w' = handleSearch_begin p w.
Proof.
  destruct e as [sp|p|i o|i|b]; simpl; intros Hs Hstep; try discriminate.
  - destruct (effect_search_cases sp) as [[_ [p H]]|[H _]]; [| congruence].
    rewrite H in Hstep. injection Hstep as <-. eauto.
  - injection Hstep as <-. eauto.
Qed.

Lemma run_app_counts es : ∀ w w',
  run w es = Some w' →
  let n := length (List.filter starts_search es) in
  length (calls w') = (length (calls w) + n)%nat
  ∧ length (requests w') = (length (requests w) + n)%nat.
Proof.
  induction es as [|e es IH]; intros w w'; cbn [run List.filter].
  - intros [= <-]. cbn. by rewrite !Nat.add_0_r.
  - destruct (step w e) as [w1|] eqn:Hstep; [| discriminate].
    intros Hrun. specialize (IH _ _ Hrun). cbn zeta in IH.
    destruct IH as (Hc & Hr). rewrite Hc, Hr.
    destruct (starts_search e) eqn:Hs.
    + destruct (start_step _ _ _ Hs Hstep) as [p ->].
      rewrite calls_begin, requests_begin, !length_app.
      cbn. lia.
    + destruct (step_frame _ _ _ Hs Hstep) as (-> & -> & _).
      cbn. lia.
Qed.

(** X12. Since page load, the number of calls of [handleSearch] and the
    number of requests sent are both equal to the number of events that
    start a search (a form submission, or a run of the effect with a
    non-empty recognized parameter): one request per search, none
    otherwise. *)
Theorem one_request_per_search url es w :
  run (initial_world url) es = Some w →
  let n := length (List.filter starts_search es) in
  length (calls w) = n ∧ length (requests w) = n.
Proof. intros Hrun. apply run_app_counts in Hrun. exact Hrun. Qed.

(** X15. While a call that runs alone is suspended, at [fetch] or at
    [response.json()], the state is [isSearching = true], [error = null],
    [results] empty, [hasSearched = true]; in this state the introduction and
    the posts are hidden and the centered layout is off, whatever the URL. *)
Theorem pending_call_display w p r sp :
  ok r = true →
  let i := length (calls w) in
  let pending := {| isSearching := true; error := Null; results := [];
                    hasSearched := true |} in
  (∃ w1, run w [OnSearch p] = Some w1 ∧ ui w1 = pending)
  ∧ (∃ w2, run w [OnSearch p; FetchSettled i (Responded r)] = Some w2 ∧ ui w2 = pending)
  ∧ showIntroAndPosts pending sp = false
  ∧ showCenteredSearch pending sp = false.
Proof.
  intros Hok i pending. subst i. split; [| split; [| done]].
  - eexists. split; reflexivity.
  - cbn [run step]. rewrite calls_begin, lookup_new_call.
    cbn [handleSearch_fetched]. rewrite Hok. eexists. split; reflexivity.
Qed.

(** X16. Once [hasSearched] is [true], the centered layout is never shown
    again, whatever happens afterwards and also when the URL has no
    parameters any more. *)
Theorem centered_never_returns w es w' sp :
  run w es = Some w' →
  hasSearched (ui w) = true →
  showCenteredSearch (ui w') sp = false.
Proof.
  intros Hrun Hw. unfold showCenteredSearch.
  by rewrite (run_keeps_hasSearched es w w' Hrun Hw).
Qed.

(** X17. Whenever the centered layout is shown, the introduction and the
    posts are shown and the results panel is not. *)
Theorem centered_layout_exclusive st sp :
  showCenteredSearch st sp = true →
  showIntroAndPosts st sp = true ∧ showSearchResults st sp = false.
Proof.
  intros H. unfold showIntroAndPosts, showSearchResults. rewrite H. split; [done |].
  unfold showCenteredSearch in H. apply andb_true_iff in H as [_ H].
  by apply negb_true_iff in H.
Qed.

Lemma run_hasSearched_calls es : ∀ w w',
  run w es = Some w' →
  hasSearched (ui w) = negb (length (calls w) =? 0)%nat →
  hasSearched (ui w') = negb (length (calls w') =? 0)%nat.
Proof.
  induction es as [|e es IH]; intros w w'; cbn [run].
  - by intros [= <-].
  - destruct (step w e) as [w1|] eqn:Hstep; [| discriminate].
    intros Hrun Hw. eapply IH; [exact Hrun |].
    destruct (starts_search e) eqn:Hs.
    + destruct (start_step _ _ _ Hs Hstep) as [p ->].
      rewrite calls_begin, length_app. cbn [ui handleSearch_begin hasSearched setHasSearched length].
      symmetry. apply negb_true_iff, Nat.eqb_neq. lia.
    + destruct (step_frame _ _ _ Hs Hstep) as (_ & -> & ->). done.
Qed.

(** X18. Since page load, [hasSearched] is [true] exactly when
    [handleSearch] has been called at least once. *)
Theorem hasSearched_iff_called url es w :
  run (initial_world url) es = Some w →
  hasSearched (ui w) = negb (length (calls w) =? 0)%nat.
Proof. intros Hrun. by apply (run_hasSearched_calls es _ _ Hrun). Qed.

Lemma step_error w e w' :
  step w e = Some w' →
  error (ui w) = Null ∨ error (ui w) = Str failure_message →
  error (ui w') = Null ∨ error (ui w') = Str failure_message.
Proof.
  destruct e as [sp|p|i o|i|b]; simpl.
  - destruct (effect_search sp); intros [= <-]; [by left | done].
  - intros [= <-]. by left.
  - destruct (calls w !! i) as [[]|]; try discriminate. intros [= <-] Hw.
    destruct o as [|r]; simpl; [by right |]. destruct (ok r); simpl; [done | by right].
  - destruct (calls w !! i) as [[]|]; try discriminate. intros [= <-] Hw.
    unfold handleSearch_parsed. destruct (body r); simpl; [done | by right].
  - by intros [= <-].
Qed.

(** X19. Since page load, [error] is either [null] or the one message
    [Search failed. Please try again.]; no other text is ever stored. *)
Theorem error_is_null_or_message url es w :
  run (initial_world url) es = Some w →
  error (ui w) = Null ∨ error (ui w) = Str "Search failed. Please try again.".
Proof.
  assert (H : ∀ es w0 w', run w0 es = Some w' →
    error (ui w0) = Null ∨ error (ui w0) = Str failure_message →
    error (ui w') = Null ∨ error (ui w') = Str failure_message).
  { clear. induction es as [|e es IH]; intros w0 w'; cbn [run].
    - by intros [= <-].
    - destruct (step w0 e) as [w1|] eqn:Hstep; [| discriminate].
      intros Hrun Hw. eapply IH; [exact Hrun |]. by eapply step_error. }
  intros Hrun. apply (H es _ _ Hrun). by left.
Qed.

End RunFacts.

(** ** The totals of the statistics line *)

Lemma fold_size_shift ps : ∀ a,
  fold_left (λ sum project, sum + size_or_zero project) ps a = a + totalSize ps.
Proof.
  unfold totalSize. induction ps as [|p ps IH]; intros a; cbn [fold_left]; [lia |].
  rewrite IH, (IH (0 + _)). lia.
Qed.

Lemma totalSize_append ps1 ps2 : totalSize (ps1 ++ ps2) = totalSize ps1 + totalSize ps2.
Proof. unfold totalSize at 1. rewrite fold_left_app, fold_size_shift. done. Qed.

Lemma totalSize_nonneg ps :
  Forall (λ project, 0 ≤ size_or_zero project) ps → 0 ≤ totalSize ps.
Proof.
  induction 1 as [|p ps Hp _ IH]; [done |].
  change (p :: ps) with ([p] ++ ps). rewrite totalSize_append.
  unfold totalSize at 1. cbn [fold_left]. lia.
Qed.

Lemma round64_exact x : Z.abs x ≤ 2 ^ 53 → round64 x = x.
Proof. intros H. unfold round64. by rewrite (proj2 (Z.leb_le _ _) H). Qed.

(** While no partial sum exceeds [2^53] no addition rounds. *)
Lemma fold_size64_exact ps : ∀ a,
  Forall (λ project, 0 ≤ size_or_zero project) ps →
  0 ≤ a → a + totalSize ps ≤ 2 ^ 53 →
  fold_left (λ sum project, round64 (sum + size_or_zero project)) ps a
  = a + totalSize ps.
Proof.
  induction ps as [|p ps IH]; intros a Hall Ha Hsum.
  - unfold totalSize. cbn [fold_left]. lia.
  - apply Forall_cons in Hall as [Hp Hall].
    pose proof (totalSize_nonneg ps Hall) as Hps.
    change (p :: ps) with ([p] ++ ps) in Hsum |- *.
    rewrite totalSize_append in Hsum |- *.
    unfold totalSize at 1 in Hsum. unfold totalSize at 1.
    cbn [fold_left app] in Hsum |- *.
    rewrite round64_exact by lia.
    rewrite IH by (done || lia). lia.
Qed.

Lemma totalSize64_exact ps :
  Forall (λ project, 0 ≤ size_or_zero project) ps →
  totalSize ps ≤ 2 ^ 53 →
  totalSize64 ps = totalSize ps.
Proof.
  intros Hall Hsum. unfold totalSize64. rewrite fold_size64_exact by (done || lia). lia.
Qed.

(** X20. When no size is negative and the sizes of two lists of projects
    add up to at most [2^53], the total that the code computes with
    JavaScript numbers for the two lists put together is the exact sum of
    the sizes, and the sum of the totals it computes for each list;
    [totalCollections] is the sum of the two counts. *)
Theorem totalSize_app ps1 ps2 :
  Forall (λ project, 0 ≤ size_or_zero project) (ps1 ++ ps2) →
  totalSize (ps1 ++ ps2) ≤ 2 ^ 53 →
  totalSize64 (ps1 ++ ps2) = totalSize (ps1 ++ ps2)
  ∧ totalSize64 (ps1 ++ ps2) = totalSize64 ps1 + totalSize64 ps2
  ∧ totalCollections (ps1 ++ ps2) = (totalCollections ps1 + totalCollections ps2)%nat.
Proof.
  intros Hall Hsum.
  pose proof Hall as Hall'. apply Forall_app in Hall' as [H1 H2].
  pose proof (totalSize_nonneg _ H1). pose proof (totalSize_nonneg _ H2).
  rewrite totalSize_append in Hsum.
  split; [| split; [| apply length_app]].
  - apply totalSize64_exact; [done |]. rewrite totalSize_append. lia.
  - rewrite !totalSize64_exact by (done || rewrite ?totalSize_append; lia).
    apply totalSize_append.
Qed.

(** X21. A project without [size], or with size [0], counts as one
    collection and adds nothing to [totalSize], wherever it stands in the
    list. *)
Theorem project_without_size ps1 project ps2 :
  size project = None ∨ size project = Some 0 →
  totalSize (ps1 ++ project :: ps2) = totalSize (ps1 ++ ps2)
  ∧ totalCollections (ps1 ++ project :: ps2) = S (totalCollections (ps1 ++ ps2)).
Proof.
  intros Hsize.
  assert (Hz : size_or_zero project = 0).
  { unfold size_or_zero. by destruct Hsize as [-> | ->]. }
  split.
  - rewrite !totalSize_append.
    change (project :: ps2) with ([project] ++ ps2).
    rewrite (totalSize_append [project] ps2).
    unfold totalSize at 2. cbn [fold_left]. lia.
  - unfold totalCollections. rewrite !length_app. cbn. lia.
Qed.

(** X1. What [toString()] writes, the parser of [URLSearchParams] reads back
    unchanged: the same names and values, in the same order, whatever bytes
    they contain. *)
Theorem parse_query_inverts_toString (l : URLSearchParams.t) :
  parse_query (URLSearchParams.toString l) = l.
Proof. apply parse_query_toString. Qed.

(** X7. When no recognized parameter has a non-empty value, the form is
    prefilled with five empty strings. *)
Theorem initialValues_without_params sp :
  hasSearchParams sp = false →
  initialValues sp = {| query := ""; domain := Str ""; tag := Str ""; year := Str "";
                        region := Str "" |}.
Proof.
  rewrite hasSearchParams_existsb. unfold recognized. cbn [existsb].
  rewrite orb_false_r. intros H.
  apply orb_false_iff in H as [Hq H]. apply orb_false_iff in H as [Hd H].
  apply orb_false_iff in H as [Ht H]. apply orb_false_iff in H as [Hy Hr].
  unfold initialValues, js_or. rewrite Hq, Hd, Ht, Hy, Hr. done.
Qed.

Section MoreRunFacts.
Context {SearchResult : Type}.
Implicit Types (w : @World SearchResult) (o : @FetchOutcome SearchResult).

(** X11. When a call resumes after [fetch] or after [response.json()],
    whatever the outcome, it neither navigates nor issues another request nor
    starts another call: a failed search is not retried. *)
Theorem return_keeps_location w i o w' :
  step w (FetchSettled i o) = Some w' ∨ step w (JsonSettled i) = Some w' →
  browser w' = browser w
  ∧ requests w' = requests w
  ∧ length (calls w') = length (calls w).
Proof.
  intros [H | H]; simpl in H.
  - destruct (calls w !! i) as [[]|]; try discriminate.
    injection H as <-. by destruct (fetched_frame i o w) as (? & ? & ? & _).
  - destruct (calls w !! i) as [[| r |]|]; try discriminate.
    injection H as <-. by destruct (parsed_frame i r w) as (? & ? & ? & _).
Qed.

(** X14. If the effect runs on the parameters that a search has just pushed,
    and the text or a filter of that search is non-empty, the effect starts
    the search again: the same request is sent a second time, and the URL is
    pushed a second time, which, the page being at that URL already, leaves
    the history as the first push left it. *)
Theorem pushed_params_restart_search w p :
  negb (bool_decide (query p = ""))
    || truthy (domain p) || truthy (tag p) || truthy (year p) || truthy (region p) = true →
  ∃ w', run w [OnSearch p; ParamsChanged (parse_query (query_string p))] = Some w'
        ∧ requests w' = requests w ++ ["/api/search?" +:+ query_string p;
                                       "/api/search?" +:+ query_string p]
        ∧ browser w' = browser (handleSearch_begin p w)
        ∧ current (browser w') = "/?" +:+ query_string p.
Proof.
  intros Hp. cbn [run step]. unfold query_string at 1.
  rewrite parse_query_toString, effect_search_build_params, Hp.
  eexists. split; [reflexivity |].
  rewrite requests_begin, browser_begin, requests_begin.
  rewrite query_string_or_undefined, <- app_assoc.
  split; [done |].
  rewrite (browser_begin p w).
  split; [| apply current_router_push].
  set (b1 := router_push ("/?" +:+ query_string p) {| scroll := false |} (browser w)).
  assert (Hb1 : current b1 = "/?" +:+ query_string p) by apply current_router_push.
  unfold router_push at 1. rewrite bool_decide_eq_true_2 by done.
  rewrite <- Hb1. by destruct b1.
Qed.

End MoreRunFacts.

(** ** Concrete instances *)

Lemma retriggered_search_same_url_witness :
  query_string (only_text "foo")
  = query_string {| query := "foo"; domain := Str ""; tag := Null; year := Undefined;
                    region := Str "" |}.
Proof.
  apply (retriggered_search_same_url
           {| query := "foo"; domain := Str ""; tag := Null; year := Undefined;
              region := Str "" |} (only_text "foo")).
  reflexivity.
Defined.

Lemma reload_repeats_search_witness :
  is_Some (effect_search (parse_query (query_string
             {| query := ""; domain := Str "x y"; tag := Null; year := Undefined;
                region := Str "" |}))).
Proof.
  apply (proj2 (reload_repeats_search
                  {| query := ""; domain := Str "x y"; tag := Null; year := Undefined;
                     region := Str "" |})).
  reflexivity.
Defined.

Lemma query_string_ignores_empty_filters_witness :
  query_string {| query := "a&b"; domain := Str ""; tag := Null; year := Str "2020";
                  region := Undefined |}
  = query_string {| query := "a&b"; domain := Undefined; tag := Str ""; year := Str "2020";
                    region := Null |}.
Proof.
  apply (query_string_ignores_empty_filters
           {| query := "a&b"; domain := Str ""; tag := Null; year := Str "2020";
              region := Undefined |}
           {| query := "a&b"; domain := Undefined; tag := Str ""; year := Str "2020";
              region := Null |}); reflexivity.
Defined.

Lemma initialValues_same_request_witness :
  query_string (initialValues [("term", "foo"); ("year", "2020"); ("tag", "")])
  = query_string {| query := "foo"; domain := Undefined; tag := Undefined;
                    year := Str "2020"; region := Undefined |}.
Proof.
  apply (initialValues_same_request [("term", "foo"); ("year", "2020"); ("tag", "")]).
  reflexivity.
Defined.

Lemma initialValues_without_params_witness :
  initialValues [("page", "2"); ("term", "")]
  = {| query := ""; domain := Str ""; tag := Str ""; year := Str ""; region := Str "" |}.
Proof. apply (initialValues_without_params [("page", "2"); ("term", "")]). reflexivity. Defined.

Lemma unrecognized_key_ignored_witness :
  effect_search ([("term", "foo")] ++ ("page", "2") :: [("year", "2020")])
  = effect_search ([("term", "foo")] ++ [("year", "2020")]).
Proof.
  apply (unrecognized_key_ignored "page" "2" [("term", "foo")] [("year", "2020")]).
  unfold recognized. intros H. repeat (apply elem_of_cons in H as [H | H]; [discriminate |]).
  by apply elem_of_nil in H.
Defined.

Lemma later_duplicate_ignored_witness :
  effect_search ([("term", "")] ++ ("term", "foo") :: [])
  = effect_search ([("term", "")] ++ []).
Proof. apply (later_duplicate_ignored "term" "foo" [("term", "")] []). reflexivity. Defined.

Lemma successful_search_state_witness :
  ∃ w', run (@initial_world string "/")
            (lone_call 0 (only_text "foo")
               (Responded {| status := 200; body := Some ["b"; "a"] |})) = Some w'
        ∧ ui w' = {| isSearching := false; error := Null; results := ["b"; "a"];
                     hasSearched := true |}.
Proof.
  apply (successful_search_state (@initial_world string "/") (only_text "foo")
           {| status := 200; body := Some ["b"; "a"] |} ["b"; "a"]); reflexivity.
Defined.

Lemma return_keeps_location_witness :
  browser (handleSearch_fetched 0 NetworkError
             (handleSearch_begin (only_text "foo") (@initial_world string "/")))
  = browser (handleSearch_begin (only_text "foo") (@initial_world string "/")).
Proof.
  apply (return_keeps_location
           (handleSearch_begin (only_text "foo") (@initial_world string "/"))
           0 NetworkError).
  left. reflexivity.
Defined.

Lemma pushed_params_restart_search_witness :
  ∃ w', run (@initial_world string "/")
            [OnSearch (only_text "foo");
             ParamsChanged (parse_query (query_string (only_text "foo")))] = Some w'
        ∧ requests w' = [] ++ ["/api/search?" +:+ query_string (only_text "foo");
                                "/api/search?" +:+ query_string (only_text "foo")]
        ∧ browser w'
          = browser (handleSearch_begin (only_text "foo") (@initial_world string "/"))
        ∧ current (browser w') = "/?" +:+ query_string (only_text "foo").
Proof.
  apply (pushed_params_restart_search (@initial_world string "/") (only_text "foo")).
  reflexivity.
Defined.

(** After the two pushes of X14 the history has the entry of the landing page
    behind the current one, and no other. *)
Example pushed_twice_one_entry :
  (back ∘ browser <$>
     run (@initial_world string "/")
       [OnSearch (only_text "foo");
        ParamsChanged (parse_query (query_string (only_text "foo")))])
  = Some ["/"].
Proof. reflexivity. Qed.

Lemma one_request_per_search_witness :
  ∃ w, run (initial_world "/") second_returns_first = Some w
       ∧ length (calls w) = 2%nat ∧ length (requests w) = 2%nat.
Proof.
  eexists. split; [reflexivity |].
  apply (one_request_per_search "/" second_returns_first). reflexivity.
Defined.

Lemma pending_call_display_witness :
  showIntroAndPosts
    {| isSearching := true; error := Null; results := @nil string; hasSearched := true |}
    [] = false.
Proof.
  apply (pending_call_display (@initial_world string "/") (only_text "foo")
           {| status := 200; body := Some [] |} []).
  reflexivity.
Defined.

Lemma centered_never_returns_witness :
  ∃ w, run (initial_world "/") second_returns_first = Some w
       ∧ showCenteredSearch (ui w) [] = false.
Proof.
  eexists. split; [reflexivity |].
  apply (centered_never_returns
           (handleSearch_begin (only_text "foo") (@initial_world string "/"))
           (tail second_returns_first)); reflexivity.
Defined.

Lemma centered_layout_exclusive_witness :
  showIntroAndPosts (@initial_state string) [] = true
  ∧ showSearchResults (@initial_state string) [] = false.
Proof. apply (centered_layout_exclusive (@initial_state string) []). reflexivity. Defined.

Lemma hasSearched_iff_called_witness :
  ∃ w, run (initial_world "/") first_returns_first = Some w
       ∧ hasSearched (ui w) = negb (length (calls w) =? 0)%nat.
Proof.
  eexists. split; [reflexivity |].
  apply (hasSearched_iff_called "/" first_returns_first). reflexivity.
Defined.

Lemma error_is_null_or_message_witness :
  ∃ w, run (initial_world "/") second_returns_first = Some w
       ∧ (error (ui w) = Null ∨ error (ui w) = Str "Search failed. Please try again.").
Proof.
  eexists. split; [reflexivity |].
  apply (error_is_null_or_message "/" second_returns_first). reflexivity.
Defined.

Lemma project_without_size_witness :
  totalSize ([mkProject "a" "/a" (Some 3) false] ++
             mkProject "b" "/b" None true :: [mkProject "c" "/c" (Some 4) false])
  = totalSize ([mkProject "a" "/a" (Some 3) false] ++ [mkProject "c" "/c" (Some 4) false])
  ∧ totalCollections ([mkProject "a" "/a" (Some 3) false] ++
             mkProject "b" "/b" None true :: [mkProject "c" "/c" (Some 4) false])
    = S (totalCollections
           ([mkProject "a" "/a" (Some 3) false] ++ [mkProject "c" "/c" (Some 4) false])).
Proof.
  apply (project_without_size [mkProject "a" "/a" (Some 3) false]
           (mkProject "b" "/b" None true) [mkProject "c" "/c" (Some 4) false]).
  left. reflexivity.
Defined.

Lemma totalSize_app_witness :
  totalSize64 ([mkProject "a" "/a" (Some 3) false] ++ [mkProject "b" "/b" None true])
  = totalSize ([mkProject "a" "/a" (Some 3) false] ++ [mkProject "b" "/b" None true])
  ∧ totalSize64 ([mkProject "a" "/a" (Some 3) false] ++ [mkProject "b" "/b" None true])
    = totalSize64 [mkProject "a" "/a" (Some 3) false]
      + totalSize64 [mkProject "b" "/b" None true]
  ∧ totalCollections ([mkProject "a" "/a" (Some 3) false] ++ [mkProject "b" "/b" None true])
    = (totalCollections [mkProject "a" "/a" (Some 3%Z) false]
       + totalCollections [mkProject "b" "/b" None true])%nat.
Proof.
  apply (totalSize_app [mkProject "a" "/a" (Some 3) false] [mkProject "b" "/b" None true]).
  - repeat constructor; vm_compute; discriminate.
  - vm_compute. discriminate.
Defined.

(** Above [2^53] the additions round: the total of [2^53], [1] and [1] is
    [2^53] for the code, and [2^53 + 2] in the integers. *)
Example totalSize64_rounds :
  totalSize64 [mkProject "a" "/a" (Some (2 ^ 53)) false;
               mkProject "b" "/b" (Some 1) false;
               mkProject "c" "/c" (Some 1) false] = 2 ^ 53
  ∧ totalSize [mkProject "a" "/a" (Some (2 ^ 53)) false;
               mkProject "b" "/b" (Some 1) false;
               mkProject "c" "/c" (Some 1) false] = 2 ^ 53 + 2.
Proof. split; reflexivity. Qed.
